(** * lidl-slovenia-cli: the store / product / stock pipeline of [index.js]

    A shallow embedding of [src/index.js] and the properties its
    specification states about it.

    - JavaScript values are an inductive type [value]; the objects the
      program builds with object literals (stores, variants, stock entries)
      are records whose fields hold values.
    - Objects used as string-keyed tables ([icon_cypher], a raw store record
      of the directory response) are [gmap string value]; a property read
      goes through the prototype chain, as in JavaScript.
    - Effects (console, prompts, network, the cache file, the browser) are
      threaded through a state-and-outcome monad [M] over a [World].
    - Strings are the byte strings of the source text; the responses of the
      two endpoints and the state of a product page are what the world
      supplies, in the shapes the program reads them with. *)

From stdpp Require Import gmap strings list pretty.
From Stdlib Require Import ZArith Ascii.

Open Scope string_scope.
Open Scope Z_scope.
Open Scope list_scope.

(** ** Values *)

(** The values the pipeline handles.  Numbers that the program only compares
    and prints are integers here; [VFun] is a built-in function object and
    [VObject] an object without own enumerable properties, both reachable
    through the prototype chain of an object literal. *)
Inductive value : Type :=
| VUndefined
| VNull
| VBool (b : bool)
| VNum (n : Z)
| VStr (s : string)
| VFun (name : string)
| VObject.

#[global] Instance value_eq_dec : EqDecision value.
Proof. solve_decision. Defined.

Inductive js_type : Type :=
| TUndefined | TNull | TBoolean | TNumber | TString | TFunction | TObject.

#[global] Instance js_type_eq_dec : EqDecision js_type.
Proof. solve_decision. Defined.

Definition type_of (v : value) : js_type :=
  match v with
  | VUndefined => TUndefined
  | VNull => TNull
  | VBool _ => TBoolean
  | VNum _ => TNumber
  | VStr _ => TString
  | VFun _ => TFunction
  | VObject => TObject
  end.

(** ToBoolean: what [if (v)] and [!v] test. *)
Definition truthy (v : value) : bool :=
  match v with
  | VUndefined | VNull => false
  | VBool b => b
  | VNum n => negb (n =? 0)
  | VStr s => negb (String.eqb s "")
  | VFun _ | VObject => true
  end.

(** [a || b] *)
Definition or_else (a b : value) : value := if truthy a then a else b.

(** [a === b]: same type and same value; two objects are never the same
    object here, since each [VObject] of the pipeline is freshly parsed. *)
Definition strict_equals (a b : value) : bool :=
  match a, b with
  | VUndefined, VUndefined => true
  | VNull, VNull => true
  | VBool x, VBool y => Bool.eqb x y
  | VNum x, VNum y => x =? y
  | VStr x, VStr y => String.eqb x y
  | VFun x, VFun y => String.eqb x y
  | _, _ => false
  end.

(** ToString, as applied by template literals, [join] and property keys. *)
Definition ToString (v : value) : string :=
  match v with
  | VUndefined => "undefined"
  | VNull => "null"
  | VBool true => "true"
  | VBool false => "false"
  | VNum n => pretty n
  | VStr s => s
  | VFun name => "function " +:+ name +:+ "() { [native code] }"
  | VObject => "[object Object]"
  end.

(** ** Object literals as tables *)

(** The properties every object literal inherits from [Object.prototype]. *)
Definition Object_prototype_functions : list string :=
  [ "hasOwnProperty"; "isPrototypeOf"; "propertyIsEnumerable";
    "toLocaleString"; "toString"; "valueOf";
    "__defineGetter__"; "__defineSetter__";
    "__lookupGetter__"; "__lookupSetter__" ].

Definition Object_prototype (key : string) : option value :=
  if String.eqb key "constructor" then Some (VFun "Object")
  else if String.eqb key "__proto__" then Some VObject
  else if bool_decide (key ∈ Object_prototype_functions) then Some (VFun key)
  else None.

(** [obj[key]] on an object literal: an own property, else an inherited
    one, else [undefined]. *)
Definition get_property (obj : gmap string value) (key : string) : value :=
  match obj !! key with
  | Some v => v
  | None => default VUndefined (Object_prototype key)
  end.

(** Lines 18-25. *)
Definition icon_cypher : gmap string value :=
  list_to_map
    [ ("eCharger", VStr "Electric Car Charger");
      ("hotDrinks", VStr "Hot Drinks");
      ("garage", VStr "Parking Garage");
      ("freeWiFi", VStr "Free Wi-Fi");
      ("parking", VStr "Parking");
      ("disParking", VStr "Disabled Parking") ].

(** ** parseServices (lines 35-46) *)

Definition iconKey (i : nat) : string := "INFOICON" +:+ pretty i.

(** One turn of the [for] loop: [services] is the array built so far. *)
Definition parseServices_body
    (location : gmap string value) (services : list value) (i : nat)
  : list value :=
  let code := get_property location (iconKey i) in
  if truthy code then
    let name := get_property icon_cypher (ToString code) in
    if truthy name then services ++ [name] else services ++ [code]
  else services.

Definition parseServices (location : gmap string value) : list value :=
  foldl (parseServices_body location) [] (seq 1 41).

(** ** Records of the pipeline *)

(** A store as built at lines 67-74. *)
Record Store : Type := {
  store_id : value;
  store_address : string;
  store_postalCode : value;
  store_latitude : value;
  store_longitude : value;
  store_services : list value;
}.

#[global] Instance Store_eq_dec : EqDecision Store.
Proof. solve_decision. Defined.

(** A variant of a product, with the four fields the flow reads. *)
Record Variant : Type := {
  variant_fullTitle : value;
  variant_productTitle : value;
  variant_erpNumber : value;
  variant_articleId : value;
}.

#[global] Instance Variant_eq_dec : EqDecision Variant.
Proof. solve_decision. Defined.

(** What [fetchProductVariants] returns (line 151). *)
Record ProductResult : Type := {
  result_productId : string;
  result_variants : list Variant;
  result_fullTitle : value;
}.

(** One entry of the stock response. *)
Record StockInfo : Type := {
  storeId : value;
  storeAvailabilityIndicator : value;
}.

(** ** The outside world *)

Inductive exn : Type :=
| JsError (name message : string).

Definition error_message (e : exn) : string :=
  match e with JsError _ message => message end.

(** The JSON value a response body parses to, by the shapes the two
    endpoints are read with. *)
Inductive Body : Type :=
| BodyInvalid                                     (* not JSON: [json()] rejects *)
| BodyDirectory (results : list (gmap string value)) (* [{ d: { results } }] *)
| BodyStock (data : list StockInfo)               (* an array of stock entries *)
| BodyOther (truth : bool).                       (* any other JSON value *)

Record Response : Type := {
  ok : bool;
  status : Z;
  statusText : string;
  body : Body;
}.

Inductive FetchResult : Type :=
| FetchFails (message : string)
| FetchResponds (r : Response).

(** The injected state of a product page under one [&erp<id>] key. *)
Record ErpData : Type := {
  erp_variants : option (list Variant); (* [None]: absent or not an object *)
  erp_fullTitle : value;                (* [keyfacts?.fullTitle] *)
}.

Inductive Page : Type :=
| PageWithoutState                          (* no [window.__NUXT__.data] *)
| PageWithState (data : string -> option ErpData).

Inductive PageLoad : Type :=
| NavigationFails (message : string)
| Loaded (page : Page).

Inductive output : Type :=
| Log (line : string)           (* console.log *)
| LogError (line : string)      (* console.error *)
| Prompt (query : string)       (* the query readline writes *)
| TableOut (rows : list (list string)).

(** [process.env], read at lines 9-11. *)
Record Env : Type := {
  MAPS_HOST : option string;
  MAPS_API_KEY : option string;
  LIDL_STOCK_API : option string;
}.

(** The file [stores.json] is represented by the array of stores that
    [JSON.parse] reads from its text; [None] is an absent file. *)
Record World : Type := {
  env : Env;
  network : string -> FetchResult;   (* what [fetch url] meets *)
  web : string -> PageLoad;          (* what the browser meets at a URL *)
  stdin : list string;               (* the answers still to come *)
  console : list output;             (* what was printed, oldest first *)
  requests : list string;            (* the URLs fetched, oldest first *)
  cache : option (list Store);       (* stores.json *)
  browsers : nat;                    (* browsers launched and not closed *)
}.

Definition set_console (f : list output -> list output) (w : World) : World :=
  {| env := env w; network := network w; web := web w; stdin := stdin w;
     console := f (console w); requests := requests w; cache := cache w;
     browsers := browsers w |}.

Definition set_stdin (l : list string) (w : World) : World :=
  {| env := env w; network := network w; web := web w; stdin := l;
     console := console w; requests := requests w; cache := cache w;
     browsers := browsers w |}.

Definition set_requests (f : list string -> list string) (w : World) : World :=
  {| env := env w; network := network w; web := web w; stdin := stdin w;
     console := console w; requests := f (requests w); cache := cache w;
     browsers := browsers w |}.

Definition set_cache (c : option (list Store)) (w : World) : World :=
  {| env := env w; network := network w; web := web w; stdin := stdin w;
     console := console w; requests := requests w; cache := c;
     browsers := browsers w |}.

Definition set_browsers (f : nat -> nat) (w : World) : World :=
  {| env := env w; network := network w; web := web w; stdin := stdin w;
     console := console w; requests := requests w; cache := cache w;
     browsers := f (browsers w) |}.

(** ** The monad of the asynchronous functions *)

(** How a call ends: it returns, throws (an [async] function rejects), ends
    the process with [process.exit], or waits for ever on a prompt that
    nobody answers. *)
Inductive Outcome (A : Type) : Type :=
| Returns (a : A)
| Throws (e : exn)
| Exits (code : Z)
| Waits.

Arguments Returns {A} a.
Arguments Throws {A} e.
Arguments Exits {A} code.
Arguments Waits {A}.

Definition M (A : Type) : Type := World -> Outcome A * World.

Definition ret {A} (a : A) : M A := fun w => (Returns a, w).

Definition bind {A B} (m : M A) (k : A -> M B) : M B :=
  fun w =>
    match m w with
    | (Returns a, w') => k a w'
    | (Throws e, w') => (Throws e, w')
    | (Exits c, w') => (Exits c, w')
    | (Waits, w') => (Waits, w')
    end.

Notation "x <- m ;; k" := (bind m (fun x => k))
  (at level 100, m at next level, right associativity).
Notation "m ;; k" := (bind m (fun _ => k))
  (at level 100, right associativity).

Definition throw {A} (e : exn) : M A := fun w => (Throws e, w).

(** [try { m } catch (error) { handler }] *)
Definition try_catch {A} (m : M A) (handler : exn -> M A) : M A :=
  fun w =>
    match m w with
    | (Throws e, w') => handler e w'
    | r => r
    end.

Definition process_exit {A} (code : Z) : M A := fun w => (Exits code, w).

Definition console_log (line : string) : M unit :=
  fun w => (Returns tt, set_console (fun c => c ++ [Log line]) w).

Definition console_error (line : string) : M unit :=
  fun w => (Returns tt, set_console (fun c => c ++ [LogError line]) w).

(** Lines 27-33: the query is written, the next answer is read. *)
Definition askQuestion (query : string) : M string :=
  fun w =>
    let w' := set_console (fun c => c ++ [Prompt query]) w in
    match stdin w' with
    | [] => (Waits, w')
    | ans :: rest => (Returns ans, set_stdin rest w')
    end.

(** [await fetch(url)]: rejects when the request itself fails. *)
Definition fetch (url : string) : M Response :=
  fun w =>
    let w' := set_requests (fun r => r ++ [url]) w in
    match network w url with
    | FetchFails message => (Throws (JsError "TypeError" message), w')
    | FetchResponds r => (Returns r, w')
    end.

(** [await response.json()] *)
Definition response_json (response : Response) : M Body :=
  match body response with
  | BodyInvalid =>
      throw (JsError "SyntaxError" "Unexpected token in JSON")
  | b => ret b
  end.

(** ** The cache file *)

(** [JSON.stringify] leaves out a property whose value is [undefined] or a
    function, and writes [null] for such an element of an array; read back,
    a property left out is [undefined]. *)
Definition JSON_property (v : value) : value :=
  match v with
  | VFun _ => VUndefined
  | _ => v
  end.

Definition JSON_element (v : value) : value :=
  match v with
  | VUndefined | VFun _ => VNull
  | _ => v
  end.

Definition JSON_store (s : Store) : Store :=
  {| store_id := JSON_property (store_id s);
     store_address := store_address s;
     store_postalCode := JSON_property (store_postalCode s);
     store_latitude := JSON_property (store_latitude s);
     store_longitude := JSON_property (store_longitude s);
     store_services := map JSON_element (store_services s) |}.

(** The document that [JSON.stringify(stores, null, 2)] writes. *)
Definition JSON_stringify (stores : list Store) : list Store :=
  map JSON_store stores.

Definition writeFileSync (document : list Store) : M unit :=
  fun w => (Returns tt, set_cache (Some document) w).

(** ** fetchLidlStores (lines 48-77) *)

Definition env_truthy (v : option string) : bool :=
  match v with
  | Some s => negb (String.eqb s "")
  | None => false
  end.

Definition env_text (v : option string) : string := default "undefined" v.

(** The arrow function of lines 67-74. *)
Definition toStore (s : gmap string value) : Store :=
  {| store_id := get_property s "EntityID";
     store_address :=
       ToString (get_property s "AddressLine") +:+ ", "
       +:+ ToString (get_property s "PostalCode") +:+ " "
       +:+ ToString (get_property s "Locality");
     store_postalCode := get_property s "PostalCode";
     store_latitude := get_property s "Latitude";
     store_longitude := get_property s "Longitude";
     store_services := parseServices s |}.

Definition fetchLidlStores : M (list Store) :=
  fun w =>
    if negb (env_truthy (MAPS_HOST (env w)))
       || negb (env_truthy (MAPS_API_KEY (env w)))
    then
      (console_error
         "❌ Missing environment variables: MAPS_HOST or MAPS_API_KEY" ;;
       process_exit 1) w
    else
      let url :=
        env_text (MAPS_HOST (env w)) +:+ "?key="
        +:+ env_text (MAPS_API_KEY (env w))
        +:+ "&$filter=Adresstyp%20eq%201&$format=json&$top=5000" in
      (response <-
         try_catch
           (response <- fetch url ;;
            if negb (ok response)
            then throw (JsError "Error"
                          ("HTTP error! status: " +:+ pretty (status response)
                           +:+ " " +:+ statusText response))
            else ret response)
           (fun error =>
              console_error
                ("❌ Failed to fetch Lidl stores: " +:+ error_message error) ;;
              process_exit 1) ;;
       data <- response_json response ;;
       match data with
       | BodyDirectory results =>
           let stores := map toStore results in
           writeFileSync (JSON_stringify stores) ;;
           ret stores
       | _ =>
           throw (JsError "TypeError"
                    "Cannot read properties of undefined (reading 'results')")
       end) w.

(** ** loadCachedStores (lines 79-84): [None] is [null] *)

Definition loadCachedStores : M (option (list Store)) :=
  fun w => (Returns (cache w), w).

(** ** Strings and arrays of the standard library *)

Definition LF : string := String (Ascii.ascii_of_nat 10) "".

(** [s.includes(search)] *)
Fixpoint String_includes (s search : string) : bool :=
  String.prefix search s
  || match s with
     | EmptyString => false
     | String _ rest => String_includes rest search
     end.

(** [array.join(sep)]: [undefined] and [null] elements are written empty. *)
Definition join_text (v : value) : string :=
  match v with
  | VUndefined | VNull => ""
  | _ => ToString v
  end.

Fixpoint Array_join (l : list value) (sep : string) : string :=
  match l with
  | [] => ""
  | [v] => join_text v
  | v :: rest => join_text v +:+ sep +:+ Array_join rest sep
  end.

(** [array[index]] for a computed number; [None] as index is [NaN]. *)
Definition Array_at {A} (l : list A) (index : option Z) : option A :=
  match index with
  | Some i => if 0 <=? i then l !! Z.to_nat i else None
  | None => None
  end.

Definition is_digit (c : ascii) : bool :=
  ((48 <=? Ascii.nat_of_ascii c) && (Ascii.nat_of_ascii c <=? 57))%nat.

Definition digit_value (c : ascii) : option Z :=
  if is_digit c then Some (Z.of_nat (Ascii.nat_of_ascii c) - 48) else None.

Definition hex_value (c : ascii) : option Z :=
  let n := Ascii.nat_of_ascii c in
  if is_digit c then Some (Z.of_nat n - 48)
  else if ((97 <=? n) && (n <=? 102))%nat then Some (Z.of_nat n - 87)
  else if ((65 <=? n) && (n <=? 70))%nat then Some (Z.of_nat n - 55)
  else None.

Definition is_whitespace (c : ascii) : bool :=
  let n := Ascii.nat_of_ascii c in
  ((n =? 32) || ((9 <=? n) && (n <=? 13)))%nat.

Fixpoint skip_whitespace (s : string) : string :=
  match s with
  | String c rest => if is_whitespace c then skip_whitespace rest else s
  | EmptyString => s
  end.

(** The longest prefix of digits, read in the radix; [None] when empty. *)
Fixpoint parse_digits
    (digit : ascii -> option Z) (radix : Z) (s : string) (acc : option Z)
  : option Z :=
  match s with
  | String c rest =>
      match digit c with
      | Some d => parse_digits digit radix rest (Some (default 0 acc * radix + d))
      | None => acc
      end
  | EmptyString => acc
  end.

(** [parseInt(s)] without a radix; [None] is [NaN]. *)
Definition parseInt (s : string) : option Z :=
  let s1 := skip_whitespace s in
  let '(negative, s2) :=
    match s1 with
    | String "-"%char rest => (true, rest)
    | String "+"%char rest => (false, rest)
    | _ => (false, s1)
    end in
  let magnitude :=
    match s2 with
    | String "0"%char (String x rest) =>
        if Ascii.eqb x "x" || Ascii.eqb x "X"
        then parse_digits hex_value 16 rest None
        else parse_digits digit_value 10 s2 None
    | _ => parse_digits digit_value 10 s2 None
    end in
  (fun n => if negative : bool then - n else n) <$> magnitude.

(** ** The stock endpoint (lines 86-129) *)

Definition fetchProductAvailability (productId : value) (storeIds : string)
  : M Body :=
  fun w =>
    let url :=
      env_text (LIDL_STOCK_API (env w)) +:+ ToString productId
      +:+ "?storeids=" +:+ storeIds in
    (response <- fetch url ;;
     if negb (ok response)
     then throw (JsError "Error" "Failed to fetch product availability")
     else response_json response) w.

(** The [switch] of lines 111-125; [inStockStores] is the array so far. *)
Definition stock_switch
    (store : Store) (status : value) (inStockStores : list Store)
  : M (list Store) :=
  if strict_equals status (VStr "AVAILABLE") then
    console_log ("✅ In stock at " +:+ store_address store) ;;
    ret (inStockStores ++ [store])
  else if strict_equals status (VStr "LOW_STOCK") then
    console_log ("⚠️ Low stock at " +:+ store_address store) ;;
    ret (inStockStores ++ [store])
  else if strict_equals status (VStr "UNKNOWN") then
    console_log ("❓ Stock status unknown at " +:+ store_address store) ;;
    ret inStockStores
  else
    console_log ("❌ Not in stock at " +:+ store_address store) ;;
    ret inStockStores.

(** One turn of the loop of lines 106-126. *)
Definition stock_body
    (stores : list Store) (inStockStores : list Store) (stockInfo : StockInfo)
  : M (list Store) :=
  match find (fun s => strict_equals (store_id s) (storeId stockInfo)) stores with
  | None => ret inStockStores
  | Some store =>
      stock_switch store (storeAvailabilityIndicator stockInfo) inStockStores
  end.

Fixpoint stock_loop
    (stores : list Store) (data : list StockInfo) (inStockStores : list Store)
  : M (list Store) :=
  match data with
  | [] => ret inStockStores
  | stockInfo :: rest =>
      inStockStores' <- stock_body stores inStockStores stockInfo ;;
      stock_loop stores rest inStockStores'
  end.

Definition findInStockStores (productId : value) (stores : list Store)
  : M unit :=
  console_log (LF +:+ "🔍 Checking stock across stores...") ;;
  let storeIds := map store_id stores in
  data <- fetchProductAvailability productId (Array_join storeIds ",") ;;
  match data with
  | BodyStock ((_ :: _) as data) =>
      inStockStores <- stock_loop stores data [] ;;
      console_log (LF +:+ "✅ Found " +:+ pretty (length inStockStores)
                   +:+ " stores with stock.")
  | _ => console_log "❌ No stock data found for the given product."
  end.

(** ** fetchProductVariants (lines 131-152) *)

Fixpoint take_digits (s : string) : string :=
  match s with
  | String c rest => if is_digit c then String c (take_digits rest) else ""
  | EmptyString => ""
  end.

(** [productUrl.match(/p(\d+)/)?.[1]]: the digits after the first [p] that
    is followed by a digit. *)
Fixpoint match_product_id (productUrl : string) : option string :=
  match productUrl with
  | EmptyString => None
  | String c rest =>
      if Ascii.eqb c "p" && negb (String.eqb (take_digits rest) "")
      then Some (take_digits rest)
      else match_product_id rest
  end.

(** Lines 135-136: a browser is launched and a page opened in it. *)
Definition puppeteer_launch : M unit :=
  fun w => (Returns tt, set_browsers S w).

(** Line 150. *)
Definition browser_close : M unit :=
  fun w => (Returns tt, set_browsers Nat.pred w).

(** [await page.goto(productUrl, ...)]: rejects when navigation fails. *)
Definition page_goto (productUrl : string) : M Page :=
  fun w =>
    match web w productUrl with
    | NavigationFails message => (Throws (JsError "Error" message), w)
    | Loaded page => (Returns page, w)
    end.

(** The deep copy of line 143, [JSON.parse(JSON.stringify(plain))]. *)
Definition JSON_variant (v : Variant) : Variant :=
  {| variant_fullTitle := JSON_property (variant_fullTitle v);
     variant_productTitle := JSON_property (variant_productTitle v);
     variant_erpNumber := JSON_property (variant_erpNumber v);
     variant_articleId := JSON_property (variant_articleId v) |}.

Definition no_page_state {A} : M A :=
  throw (JsError "TypeError"
           "Cannot read properties of undefined (reading 'data')").

(** Lines 139-144. *)
Definition evaluate_variants (page : Page) (productId : string)
  : M (list Variant) :=
  match page with
  | PageWithoutState => no_page_state
  | PageWithState data =>
      match data ("&erp" +:+ productId) with
      | Some erp =>
          match erp_variants erp with
          | Some plain => ret (map JSON_variant plain)
          | None => ret []
          end
      | None => ret []
      end
  end.

(** Lines 146-148. *)
Definition evaluate_fullTitle (page : Page) (productId : string) : M value :=
  match page with
  | PageWithoutState => no_page_state
  | PageWithState data =>
      match data ("&erp" +:+ productId) with
      | Some erp => ret (JSON_property (or_else (erp_fullTitle erp) VNull))
      | None => ret VNull
      end
  end.

(** [None] is the [null] of line 133. *)
Definition fetchProductVariants (productUrl : string)
  : M (option ProductResult) :=
  match match_product_id productUrl with
  | None => ret None
  | Some productId =>
      puppeteer_launch ;;
      page <- page_goto productUrl ;;
      variants <- evaluate_variants page productId ;;
      fullTitle <- evaluate_fullTitle page productId ;;
      browser_close ;;
      ret (Some {| result_productId := productId;
                   result_variants := variants;
                   result_fullTitle := fullTitle |})
  end.

(** ** productSearchFlow (lines 154-207) *)

(** The callback of line 194, [store.postalCode.includes(filterPostcode)]. *)
Definition postalCode_includes (store : Store) (filterPostcode : string)
  : M bool :=
  match store_postalCode store with
  | VStr postalCode => ret (String_includes postalCode filterPostcode)
  | VUndefined =>
      throw (JsError "TypeError"
               "Cannot read properties of undefined (reading 'includes')")
  | VNull =>
      throw (JsError "TypeError"
               "Cannot read properties of null (reading 'includes')")
  | _ =>
      throw (JsError "TypeError" "store.postalCode.includes is not a function")
  end.

(** Line 194, [stores.filter(...)], on an array of stores. *)
Fixpoint filterByPostalCode (stores : list Store) (filterPostcode : string)
  : M (list Store) :=
  match stores with
  | [] => ret []
  | store :: rest =>
      keep <- postalCode_includes store filterPostcode ;;
      kept <- filterByPostalCode rest filterPostcode ;;
      ret (if keep : bool then store :: kept else kept)
  end.

(** The variant that stands for a product without variants (lines 176-180). *)
Definition synthetic_variant (result : ProductResult) : Variant :=
  {| variant_fullTitle := result_fullTitle result;
     variant_productTitle := VUndefined;
     variant_erpNumber := VStr (result_productId result);
     variant_articleId := VStr (result_productId result) |}.

(** The identifier handed to the stock query at line 205. *)
Definition variant_id (selected : Variant) : value :=
  or_else (variant_erpNumber selected) (variant_articleId selected).

(** The [forEach] of lines 167-169; [i] is the index of the first variant. *)
Fixpoint log_variants (i : nat) (variants : list Variant) : M unit :=
  match variants with
  | [] => ret tt
  | v :: rest =>
      console_log
        (pretty (i + 1)%nat +:+ ". "
         +:+ ToString (or_else (or_else (variant_fullTitle v)
                                        (variant_productTitle v))
                               (variant_erpNumber v))
         +:+ " (ID: " +:+ ToString (variant_id v) +:+ ")") ;;
      log_variants (S i) rest
  end.

(** Lines 165-181: the variant the flow goes on with, or [None] when the
    flow returns at line 173. *)
Definition choose_variant (result : ProductResult) : M (option Variant) :=
  match result_variants result with
  | (_ :: _) as variants =>
      console_log (LF +:+ "✅ Found " +:+ pretty (length variants)
                   +:+ " variants for this product.") ;;
      log_variants 0 variants ;;
      choice <- askQuestion (LF +:+ "👉 Choose a variant number: ") ;;
      match Array_at variants ((fun n => n - 1) <$> parseInt choice) with
      | Some selected => ret (Some selected)
      | None => console_log "❌ Invalid selection." ;; ret None
      end
  | [] => ret (Some (synthetic_variant result))
  end.

(** [/^\d{4}$/.test(s)] *)
Definition is_postcode (s : string) : bool :=
  match s with
  | String a (String b (String c (String d EmptyString))) =>
      is_digit a && is_digit b && is_digit c && is_digit d
  | _ => false
  end.

Definition postcode_query : string :=
  "🔍 Filter by postcode (press Enter to skip): ".

(** The loop of lines 188-191; [answers] is the input still to come, which
    bounds the number of turns. *)
Fixpoint postcode_while (answers : list string) (filterPostcode : string)
  : M string :=
  if truthy (VStr filterPostcode) && negb (is_postcode filterPostcode) then
    console_log "❌ Invalid postcode format. Please enter a 4-digit postcode." ;;
    next <- askQuestion postcode_query ;;
    match answers with
    | [] => ret next
    | _ :: rest => postcode_while rest next
    end
  else ret filterPostcode.

Definition failed_product : M unit :=
  console_log "❌ Failed to fetch product data. Please check the URL.".

(** Lines 155-181: the variant the flow goes on with; [None] when the flow
    returns at line 160 or 173. *)
Definition select_product : M (option Variant) :=
  url <- askQuestion "🔗 Enter Lidl product URL: " ;;
  result <- fetchProductVariants url ;;
  match result with
  | None => failed_product ;; ret None
  | Some result =>
      if negb (truthy (result_fullTitle result)) then
        failed_product ;; ret None
      else
        console_log (LF +:+ "🔍 Searching for product: "
                     +:+ ToString (result_fullTitle result)) ;;
        choose_variant result
  end.

(** Lines 184-204: the stores the stock query is made for; [None] when the
    flow returns at line 197.  [stores] is [None] while it is [null].  The
    first branch is the block of lines 193-199, after which [stores] is an
    array and the test of line 201 fails; the second is lines 201-204 when
    no postal code was given. *)
Definition candidate_stores : M (option (list Store)) :=
  stores <- loadCachedStores ;;
  first <- askQuestion postcode_query ;;
  filterPostcode <- (fun w => postcode_while (stdin w) first w) ;;
  if truthy (VStr filterPostcode) then
    match stores with
    | None =>
        throw (JsError "TypeError"
                 "Cannot read properties of null (reading 'filter')")
    | Some stores =>
        stores <- filterByPostalCode stores filterPostcode ;;
        match stores with
        | [] =>
            console_log ("❌ No stores found for postcode " +:+ filterPostcode
                         +:+ ".") ;;
            ret None
        | _ :: _ => ret (Some stores)
        end
    end
  else
    match stores with
    | None =>
        console_log "⚠️ Store list not cached, fetching now..." ;;
        stores <- fetchLidlStores ;;
        ret (Some stores)
    | Some stores => ret (Some stores)
    end.

Definition productSearchFlow : M unit :=
  selected <- select_product ;;
  match selected with
  | None => ret tt
  | Some selected =>
      stores <- candidate_stores ;;
      match stores with
      | None => ret tt
      | Some stores => findInStockStores (variant_id selected) stores
      end
  end.

(** ** listStores (lines 209-237) and mainMenu (lines 240-258) *)

Definition store_row (index : nat) (store : Store) : list string :=
  [ pretty (index + 1)%nat;
    store_address store;
    ToString (store_id store);
    ToString (store_latitude store) +:+ ", "
    +:+ ToString (store_longitude store);
    match store_services store with
    | [] => "—"
    | services => Array_join services ", "
    end ].

Definition listStores : M unit :=
  stores <- loadCachedStores ;;
  match stores with
  | None | Some [] => console_log "❌ No cached store data found."
  | Some stores =>
      console_log (LF +:+ "📍 Total stores: " +:+ pretty (length stores)
                   +:+ LF) ;;
      fun w =>
        (Returns tt,
         set_console (fun c => c ++ [TableOut (imap store_row stores)]) w)
  end.

(** Lines 241-246: the menu is printed and the choice is read. *)
Definition show_menu : M string :=
  console_log (LF +:+ "Welcome to LIDL Product Stock CLI!") ;;
  console_log "1. Check product availability" ;;
  console_log "2. Update and list LIDL stores" ;;
  console_log ("3. Exit" +:+ LF) ;;
  askQuestion "Select an option: ".

(** One showing of the menu: everything of [mainMenu] before line 257. *)
Definition mainMenu_round : M unit :=
  choice <- show_menu ;;
  if String.eqb choice "1" then productSearchFlow
  else if String.eqb choice "2" then fetchLidlStores ;; listStores
  else console_log "👋 Bye!" ;; process_exit 0.

(** [mainMenu] calls itself at line 257 once a round is over; [rounds]
    bounds how many showings of the menu are followed. *)
Fixpoint mainMenu (rounds : nat) : M unit :=
  match rounds with
  | O => ret tt
  | S rounds' => mainMenu_round ;; mainMenu rounds'
  end.

(** The script: the check of lines 13-16, then line 260. *)
Definition script (rounds : nat) : M unit :=
  fun w =>
    if negb (env_truthy (LIDL_STOCK_API (env w))) then
      (console_error "❌ Missing environment variable: LIDL_STOCK_API" ;;
       process_exit 1) w
    else mainMenu rounds w.

(** * Properties *)

(** ** Amenity codes (parseServices) *)

(** What one icon field contributes to the services of a store. *)
Definition emitted (code : value) : option value :=
  if truthy code then
    let name := get_property icon_cypher (ToString code) in
    Some (if truthy name then name else code)
  else None.

Lemma parseServices_fold location (l : list nat) (acc : list value) :
  foldl (parseServices_body location) acc l
  = acc ++ omap (fun i => emitted (get_property location (iconKey i))) l.
Proof.
  revert acc. induction l as [|i l IH]; intros acc; simpl.
  - by rewrite app_nil_r.
  - rewrite IH. unfold parseServices_body, emitted.
    destruct (truthy (get_property location (iconKey i))); simpl; [|done].
    destruct (truthy (get_property icon_cypher _)); by rewrite <- app_assoc.
Qed.

(** The services are the contributions of the fields 1 to 41, in order. *)
Lemma parseServices_emitted location :
  parseServices location
  = omap (fun i => emitted (get_property location (iconKey i))) (seq 1 41).
Proof. unfold parseServices. by rewrite parseServices_fold. Qed.

Lemma icon_cypher_label key label :
  icon_cypher !! key = Some label -> truthy label = true.
Proof.
  unfold icon_cypher. intros H. apply elem_of_list_to_map_2 in H.
  repeat (apply elem_of_cons in H as [H|H]; [by inversion H|]).
  by apply elem_of_nil in H.
Qed.

(** A code of the table is replaced by its label. *)
Lemma emitted_label (code : string) label :
  code <> "" -> icon_cypher !! code = Some label ->
  emitted (VStr code) = Some label.
Proof.
  intros Hne Hin. unfold emitted, get_property. simpl. rewrite Hin.
  apply String.eqb_neq in Hne. rewrite Hne. simpl.
  by rewrite (icon_cypher_label _ _ Hin).
Qed.

(** A code that is neither in the table nor the name of a property that
    the table inherits is passed on as it is. *)
Lemma emitted_verbatim (code : string) :
  code <> "" -> icon_cypher !! code = None -> Object_prototype code = None ->
  emitted (VStr code) = Some (VStr code).
Proof.
  intros Hne Hout Hproto. unfold emitted, get_property. simpl.
  rewrite Hout, Hproto. apply String.eqb_neq in Hne. by rewrite Hne.
Qed.

Lemma emitted_truthy code v : emitted code = Some v -> truthy v = true.
Proof.
  unfold emitted. destruct (truthy code) eqn:Hcode; [|done].
  destruct (truthy (get_property icon_cypher (ToString code))) eqn:Hname;
    intros H; by inversion H; subst.
Qed.

(** What is emitted for a code is the code itself or what the lookup in
    the table gave. *)
Lemma emitted_cases code v :
  emitted code = Some v ->
  v = code \/ v = get_property icon_cypher (ToString code).
Proof.
  unfold emitted. destruct (truthy code); [|done].
  destruct (truthy (get_property icon_cypher (ToString code)));
    intros H; inversion H; auto.
Qed.

(** No icon field is dropped: a code in one of the fields 1 to 41 that is
    not the name of an inherited property appears among the services, as
    its label when the table has one and as it is otherwise. *)
Lemma parseServices_keeps_code location (i : nat) (code : string) :
  (1 <= i <= 41)%nat ->
  location !! iconKey i = Some (VStr code) ->
  code <> "" ->
  Object_prototype code = None ->
  default (VStr code) (icon_cypher !! code) ∈ parseServices location.
Proof.
  intros Hi Hfield Hne Hproto. rewrite parseServices_emitted.
  apply list_elem_of_omap. exists i. split.
  - apply elem_of_seq. lia.
  - unfold get_property at 1. rewrite Hfield.
    destruct (icon_cypher !! code) as [label|] eqn:Htable; simpl.
    + by apply emitted_label.
    + by apply emitted_verbatim.
Qed.

(** A raw store record whose first icon is named like an inherited property. *)
Definition location_constructor : gmap string value :=
  list_to_map
    [ ("EntityID", VStr "1");
      ("AddressLine", VStr "Cesta 1");
      ("PostalCode", VStr "1000");
      ("Locality", VStr "Ljubljana");
      ("Latitude", VNum 46);
      ("Longitude", VNum 14);
      ("INFOICON1", VStr "constructor") ].

(** C8 (the code departs from the claim): the icon code [constructor] is not
    in the table of codes, yet [parseServices] does not pass it on: the
    lookup [icon_cypher[code]] finds the inherited [Object] function, which is
    pushed in place of the code. *)
Theorem parseServices_inherited_code :
  icon_cypher !! "constructor" = None
  /\ parseServices location_constructor = [VFun "Object"]
  /\ parseServices location_constructor <> [VStr "constructor"].
Proof. split; [|split]; by vm_compute. Qed.

(** ** The store cache (fetchLidlStores, loadCachedStores) *)

Definition directory_url (e : Env) : string :=
  env_text (MAPS_HOST e) +:+ "?key=" +:+ env_text (MAPS_API_KEY e)
  +:+ "&$filter=Adresstyp%20eq%201&$format=json&$top=5000".

(** How a call of [fetchLidlStores] ends, by what it meets. *)
Lemma fetchLidlStores_cases w :
  (exists w', fetchLidlStores w = (Exits 1, w') /\ cache w' = cache w)
  \/ (exists e w', fetchLidlStores w = (Throws e, w') /\ cache w' = cache w)
  \/ (exists r results,
        network w (directory_url (env w)) = FetchResponds r
        /\ ok r = true /\ body r = BodyDirectory results
        /\ fetchLidlStores w
           = (Returns (map toStore results),
              set_cache (Some (JSON_stringify (map toStore results)))
                (set_requests (fun l => l ++ [directory_url (env w)]) w))).
Proof.
  unfold fetchLidlStores. fold (directory_url (env w)).
  destruct (negb (env_truthy (MAPS_HOST (env w)))
            || negb (env_truthy (MAPS_API_KEY (env w)))) eqn:Henv.
  { left. eexists. split; [reflexivity|done]. }
  unfold bind, try_catch, fetch, response_json, throw, ret, writeFileSync,
    console_error, process_exit.
  destruct (network w (directory_url (env w))) as [message|r] eqn:Hnet.
  { left. eexists. split; [reflexivity|done]. }
  destruct (ok r) eqn:Hok; simpl.
  2:{ left. eexists. split; [reflexivity|done]. }
  destruct (body r) as [|results|data|truth] eqn:Hbody; simpl.
  - right; left. do 2 eexists. split; [reflexivity|done].
  - right; right. exists r, results. done.
  - right; left. do 2 eexists. split; [reflexivity|done].
  - right; left. do 2 eexists. split; [reflexivity|done].
Qed.

(** A world in which the directory answers with a status that is no success. *)
Definition world_directory_down : World :=
  {| env := {| MAPS_HOST := Some "https://maps.example/stores";
               MAPS_API_KEY := Some "key";
               LIDL_STOCK_API := Some "https://stock.example/" |};
     network := fun _ =>
       FetchResponds {| ok := false; status := 503;
                        statusText := "Service Unavailable";
                        body := BodyInvalid |};
     web := fun _ => NavigationFails "net::ERR_NAME_NOT_RESOLVED";
     stdin := [];
     console := [];
     requests := [];
     cache := Some [];
     browsers := 0 |}.

(** C9: a call of [fetchLidlStores] that does not return a store list --
    because the configuration is missing, the request fails, the status is no
    success, or the body cannot be read -- leaves [stores.json] as it was. *)
Theorem fetchLidlStores_failure_keeps_cache w r w' :
  fetchLidlStores w = (r, w') ->
  (forall stores, r <> Returns stores) ->
  cache w' = cache w.
Proof.
  intros Hrun Hfail.
  destruct (fetchLidlStores_cases w)
    as [(w1 & H1 & Hc)|[(e & w1 & H1 & Hc)|(resp & results & _ & _ & _ & H1)]];
    rewrite H1 in Hrun; inversion Hrun; subst; try done.
  by destruct (Hfail (map toStore results)).
Qed.

Lemma fetchLidlStores_failure_keeps_cache_witness :
  fst (fetchLidlStores world_directory_down) = Exits 1
  /\ cache (snd (fetchLidlStores world_directory_down)) = Some [].
Proof.
  split; [by vm_compute|].
  apply (fetchLidlStores_failure_keeps_cache world_directory_down
           (fst (fetchLidlStores world_directory_down))).
  - by destruct (fetchLidlStores world_directory_down).
  - intros stores. by vm_compute.
Defined.

(** The file is written with the whole list, once the response was read. *)
Lemma fetchLidlStores_success_writes w stores w' :
  fetchLidlStores w = (Returns stores, w') ->
  cache w' = Some (JSON_stringify stores).
Proof.
  intros Hrun.
  destruct (fetchLidlStores_cases w)
    as [(w1 & H1 & Hc)|[(e & w1 & H1 & Hc)|(resp & results & _ & _ & _ & H1)]];
    rewrite H1 in Hrun; inversion Hrun; subst; done.
Qed.

Lemma loadCachedStores_absent w :
  cache w = None -> loadCachedStores w = (Returns None, w).
Proof. intros H. unfold loadCachedStores. by rewrite H. Qed.

(** After a refresh, a load returns what was written: the list as
    [JSON.stringify] renders it. *)
Lemma refresh_then_load w stores w' :
  fetchLidlStores w = (Returns stores, w') ->
  loadCachedStores w' = (Returns (Some (JSON_stringify stores)), w').
Proof.
  intros Hrun. unfold loadCachedStores.
  by rewrite (fetchLidlStores_success_writes _ _ _ Hrun).
Qed.

(** The list comes back as it was returned when no store holds a function
    or an [undefined] service. *)
Lemma refresh_then_load_same w stores w' :
  fetchLidlStores w = (Returns stores, w') ->
  Forall (fun s => JSON_store s = s) stores ->
  loadCachedStores w' = (Returns (Some stores), w').
Proof.
  intros Hrun Hjson. rewrite (refresh_then_load _ _ _ Hrun).
  assert (JSON_stringify stores = stores) as ->; [|done].
  unfold JSON_stringify. clear Hrun.
  induction Hjson as [|s l Hs _ IH]; cbn [map]; congruence.
Qed.

(** A record of the directory as JSON gives it, none of whose icon codes
    is the name of a property inherited from [Object.prototype]. *)
Definition is_json (v : value) : Prop :=
  match v with
  | VUndefined | VFun _ => False
  | _ => True
  end.

Definition plain_record (raw : gmap string value) : Prop :=
  map_Forall (fun _ v => is_json v) raw
  /\ forall i v, raw !! iconKey i = Some v -> Object_prototype (ToString v) = None.

Lemma JSON_property_json v : is_json v -> JSON_property v = v.
Proof. by destruct v. Qed.

Lemma get_property_json raw key :
  map_Forall (fun _ v => is_json v) raw ->
  Object_prototype key = None ->
  JSON_property (get_property raw key) = get_property raw key.
Proof.
  intros Hraw Hkey. unfold get_property.
  destruct (raw !! key) as [v|] eqn:Hv.
  - apply JSON_property_json. by apply (Hraw key).
  - by rewrite Hkey.
Qed.

Lemma iconKey_not_inherited :
  Forall (fun i => Object_prototype (iconKey i) = None) (seq 1 41).
Proof. by vm_compute; repeat constructor. Qed.

Lemma parseServices_plain raw :
  plain_record raw ->
  map JSON_element (parseServices raw) = parseServices raw.
Proof.
  intros [Hjson Hcodes]. rewrite parseServices_emitted.
  pose proof iconKey_not_inherited as Hkeys.
  induction (seq 1 41) as [|i l IH]; [done|].
  apply Forall_cons in Hkeys as [Hi Hl]. cbn [omap list_omap].
  destruct (emitted (get_property raw (iconKey i))) as [v|] eqn:Hv;
    [|by apply IH].
  cbn [map]. rewrite (IH Hl). f_equal.
  pose proof (emitted_truthy _ _ Hv) as Htruthy.
  unfold get_property at 1 in Hv.
  destruct (raw !! iconKey i) as [code|] eqn:Hcode.
  - apply emitted_cases in Hv as [->| ->].
    + pose proof (Hjson _ _ Hcode). by destruct code.
    + unfold get_property in *.
      destruct (icon_cypher !! ToString code) as [label|] eqn:Hlabel.
      * unfold icon_cypher in Hlabel. apply elem_of_list_to_map_2 in Hlabel.
        repeat (apply elem_of_cons in Hlabel as [Hlabel|Hlabel];
                [by inversion Hlabel|]).
        by apply elem_of_nil in Hlabel.
      * by rewrite (Hcodes _ _ Hcode) in *.
  - rewrite Hi in Hv. done.
Qed.

Lemma toStore_plain raw :
  plain_record raw -> JSON_store (toStore raw) = toStore raw.
Proof.
  intros Hplain. unfold JSON_store, toStore.
  cbn [store_id store_address store_postalCode store_latitude
       store_longitude store_services].
  rewrite (parseServices_plain _ Hplain). destruct Hplain as [Hjson _].
  by rewrite !get_property_json.
Qed.

(** The round trip of the cache holds for every directory of such records:
    a load after the refresh returns the list that the refresh returned. *)
Lemma refresh_then_load_plain w r results stores w' :
  network w (directory_url (env w)) = FetchResponds r ->
  body r = BodyDirectory results ->
  Forall plain_record results ->
  fetchLidlStores w = (Returns stores, w') ->
  loadCachedStores w' = (Returns (Some stores), w').
Proof.
  intros Hnet Hbody Hplain Hrun.
  apply (refresh_then_load_same _ _ _ Hrun).
  destruct (fetchLidlStores_cases w)
    as [(w1 & H1 & _)|[(e & w1 & H1 & _)|(r' & results' & Hn & _ & Hb & H1)]];
    rewrite H1 in Hrun; inversion Hrun; subst; clear Hrun.
  rewrite Hnet in Hn. inversion Hn; subst. rewrite Hbody in Hb.
  inversion Hb; subst. clear -Hplain.
  induction Hplain as [|raw l Hraw _ IH]; cbn [map]; constructor; [|done].
  by apply toStore_plain.
Qed.

(** A world whose directory lists one store, with the icon [constructor]. *)
Definition world_directory_constructor : World :=
  {| env := {| MAPS_HOST := Some "https://maps.example/stores";
               MAPS_API_KEY := Some "key";
               LIDL_STOCK_API := Some "https://stock.example/" |};
     network := fun _ =>
       FetchResponds {| ok := true; status := 200; statusText := "OK";
                        body := BodyDirectory [location_constructor] |};
     web := fun _ => NavigationFails "net::ERR_NAME_NOT_RESOLVED";
     stdin := [];
     console := [];
     requests := [];
     cache := None;
     browsers := 0 |}.

(** C7 (the code departs from the claim): a load on an absent file returns
    [null], but a load after a refresh does not always return the list the
    refresh returned.  For the directory above the refresh returns a store
    whose services hold the [Object] function, which [JSON.stringify] writes
    as [null]: the load returns a different list. *)
Theorem refresh_load_inherited_code :
  loadCachedStores world_directory_constructor
  = (Returns None, world_directory_constructor)
  /\ exists stores w' loaded,
      fetchLidlStores world_directory_constructor = (Returns stores, w')
      /\ loadCachedStores w' = (Returns (Some loaded), w')
      /\ map store_services stores = [[VFun "Object"]]
      /\ map store_services loaded = [[VNull]]
      /\ loaded <> stores.
Proof.
  split; [done|].
  destruct (fetchLidlStores world_directory_constructor) as [r w'] eqn:Hrun.
  vm_compute in Hrun. inversion Hrun as [[Hr Hw]]. clear Hrun.
  eexists _, _, _. split; [reflexivity|].
  split; [reflexivity|]. by vm_compute.
Qed.

(** ** The postal-code filter *)

Lemma append_nil_l (s : string) : "" +:+ s = s.
Proof. reflexivity. Qed.

Lemma append_cons (c : ascii) (a s : string) :
  String c a +:+ s = String c (a +:+ s).
Proof. reflexivity. Qed.

Lemma prefix_spec (a b : string) :
  String.prefix a b = true <-> exists rest, b = a +:+ rest.
Proof.
  revert b. induction a as [|c a IH]; intros b.
  - split; [|by destruct b]. intros _. by exists b.
  - destruct b as [|d b]; cbn [String.prefix].
    + split; [done|]. intros [rest Hrest]. by rewrite append_cons in Hrest.
    + destruct (ascii_dec c d) as [->|Hne].
      * rewrite IH. split; intros [rest Hrest]; exists rest;
          rewrite append_cons in *; congruence.
      * split; [done|]. intros [rest Hrest].
        rewrite append_cons in Hrest. congruence.
Qed.

(** [includes] is the substring test. *)
Lemma String_includes_spec (s search : string) :
  String_includes s search = true
  <-> exists before after, s = before +:+ search +:+ after.
Proof.
  induction s as [|c s IH]; cbn [String_includes].
  - rewrite orb_false_r, prefix_spec. split.
    + intros [rest Hrest]. by exists "", rest.
    + intros ([|d before] & after & H).
      * rewrite append_nil_l in H. by exists after.
      * by rewrite append_cons in H.
  - rewrite orb_true_iff, prefix_spec, IH. split.
    + intros [[rest Hrest]|(before & after & Hs)].
      * by exists "", rest.
      * exists (String c before), after. by rewrite append_cons, Hs.
    + intros ([|d before] & after & H).
      * left. rewrite append_nil_l in H. by exists after.
      * right. rewrite append_cons in H. exists before, after. congruence.
Qed.

(** The postal code of the store contains [code] as a substring. *)
Definition postal_contains (code : string) (store : Store) : Prop :=
  exists postalCode before after,
    store_postalCode store = VStr postalCode
    /\ postalCode = before +:+ code +:+ after.

Lemma postal_contains_includes code store postalCode :
  store_postalCode store = VStr postalCode ->
  postal_contains code store <-> String_includes postalCode code = true.
Proof.
  intros Hpc. rewrite String_includes_spec. unfold postal_contains. split.
  - intros (pc & before & after & Heq & Hsub).
    rewrite Hpc in Heq. inversion Heq; subst. by exists before, after.
  - intros (before & after & Hsub). by exists postalCode, before, after.
Qed.

#[global] Instance postal_contains_dec code store :
  Decision (postal_contains code store).
Proof.
  destruct (store_postalCode store) as [| | | |postalCode| |] eqn:Hpc;
    try (right; intros (pc & _ & _ & Heq & _); congruence).
  destruct (String_includes postalCode code) eqn:Hin.
  - left. by apply (postal_contains_includes _ _ _ Hpc).
  - right. intros H. apply (postal_contains_includes _ _ _ Hpc) in H.
    congruence.
Defined.

Definition has_postal_string (store : Store) : Prop :=
  exists postalCode, store_postalCode store = VStr postalCode.

(** C5: on stores whose postal code is a string, the filter of line 194
    returns the stores whose postal code contains the given string, each as
    often and in the order in which the input has them: a subsequence of the
    input, with exactly the matching stores. *)
Theorem filterByPostalCode_spec stores code w :
  Forall has_postal_string stores ->
  filterByPostalCode stores code w
  = (Returns (filter (postal_contains code) stores), w)
  /\ sublist (filter (postal_contains code) stores) stores
  /\ forall store,
      store ∈ filter (postal_contains code) stores
      <-> store ∈ stores /\ postal_contains code store.
Proof.
  intros Htyped. split; [|split].
  - induction Htyped as [|store rest [postalCode Hpc] _ IH]; [done|].
    cbn [filterByPostalCode]. unfold bind at 1, postalCode_includes.
    rewrite Hpc. unfold ret at 1. unfold bind at 1. rewrite IH.
    unfold ret. rewrite filter_cons.
    destruct (String_includes postalCode code) eqn:Hin.
    + rewrite decide_True; [done|].
      by apply (postal_contains_includes _ _ _ Hpc).
    + rewrite decide_False; [done|]. intros H.
      apply (postal_contains_includes _ _ _ Hpc) in H. congruence.
  - apply sublist_filter.
  - intros store. rewrite list_elem_of_filter. tauto.
Qed.

Definition store_at (ident postalCode : string) : Store :=
  {| store_id := VStr ident;
     store_address := "Cesta 1, " +:+ postalCode +:+ " Ljubljana";
     store_postalCode := VStr postalCode;
     store_latitude := VNum 46;
     store_longitude := VNum 14;
     store_services := [] |}.

Lemma filterByPostalCode_spec_witness :
  fst (filterByPostalCode
         [store_at "A" "1010"; store_at "B" "1020"; store_at "C" "2010";
          store_at "D" "2000"]
         "10" world_directory_down)
  = Returns [store_at "A" "1010"; store_at "B" "1020"; store_at "C" "2010"].
Proof.
  rewrite (proj1 (filterByPostalCode_spec
                    [store_at "A" "1010"; store_at "B" "1020";
                     store_at "C" "2010"; store_at "D" "2000"]
                    "10" world_directory_down
                    ltac:(repeat constructor; by eexists))).
  by vm_compute.
Defined.

(** ** The stock report (findInStockStores) *)

Definition logged (line : string) (w : World) : World :=
  set_console (fun c => c ++ [Log line]) w.

(** C4: the [switch] of lines 111-125 is a function of the status alone.
    [AVAILABLE] is reported in stock and [LOW_STOCK] low on stock, and both
    add the store to the stores in stock; [UNKNOWN] is reported unknown and
    every other status -- a string or not -- not in stock, and neither adds
    the store. *)
Theorem stock_switch_classifies store inStockStores w :
  stock_switch store (VStr "AVAILABLE") inStockStores w
  = (Returns (inStockStores ++ [store]),
     logged ("✅ In stock at " +:+ store_address store) w)
  /\ stock_switch store (VStr "LOW_STOCK") inStockStores w
     = (Returns (inStockStores ++ [store]),
        logged ("⚠️ Low stock at " +:+ store_address store) w)
  /\ stock_switch store (VStr "UNKNOWN") inStockStores w
     = (Returns inStockStores,
        logged ("❓ Stock status unknown at " +:+ store_address store) w)
  /\ forall status,
      status <> VStr "AVAILABLE" ->
      status <> VStr "LOW_STOCK" ->
      status <> VStr "UNKNOWN" ->
      stock_switch store status inStockStores w
      = (Returns inStockStores,
         logged ("❌ Not in stock at " +:+ store_address store) w).
Proof.
  repeat split.
  intros status H1 H2 H3. unfold stock_switch.
  assert (forall s, status <> VStr s -> strict_equals status (VStr s) = false)
    as Hne.
  { intros s Hs. destruct status; simpl; try done.
    apply String.eqb_neq. congruence. }
  by rewrite !Hne.
Qed.

Lemma stock_switch_classifies_witness :
  stock_switch (store_at "A" "1010") (VStr "FOOBAR") [] world_directory_down
  = (Returns [],
     logged "❌ Not in stock at Cesta 1, 1010 Ljubljana" world_directory_down).
Proof.
  by apply (stock_switch_classifies (store_at "A" "1010") []
              world_directory_down).
Defined.

(** [===] holds only between values of one type. *)
Lemma strict_equals_eq a b : strict_equals a b = true -> a = b.
Proof.
  destruct a, b; simpl; try done.
  - intros H. apply Bool.eqb_prop in H. congruence.
  - intros H. apply Z.eqb_eq in H. congruence.
  - intros H. apply String.eqb_eq in H. congruence.
  - intros H. apply String.eqb_eq in H. congruence.
Qed.

Lemma strict_equals_type a b :
  type_of a <> type_of b -> strict_equals a b = false.
Proof.
  intros Hty. destruct (strict_equals a b) eqn:H; [|done].
  apply strict_equals_eq in H. by subst.
Qed.

Lemma find_none_iff {A} (f : A -> bool) (l : list A) :
  find f l = None <-> forall x, x ∈ l -> f x = false.
Proof.
  induction l as [|y l IH]; simpl.
  - split; [|done]. intros _ x Hx. by apply elem_of_nil in Hx.
  - destruct (f y) eqn:Hy.
    + split; [done|]. intros H. rewrite (H y) in Hy; [done|]. by left.
    + rewrite IH. split.
      * intros H x Hx. apply elem_of_cons in Hx as [->|Hx]; auto.
      * intros H x Hx. apply H. by right.
Qed.

Lemma NoDup_map_inj {A B} (f : A -> B) (l : list A) x y :
  NoDup (map f l) -> x ∈ l -> y ∈ l -> f x = f y -> x = y.
Proof.
  induction l as [|z l IH]; cbn [map]; intros Hnd Hx Hy Hf.
  - by apply elem_of_nil in Hx.
  - apply NoDup_cons in Hnd as [Hz Hnd].
    assert (forall u, u ∈ l -> f z <> f u) as Hfresh.
    { intros u Hu Heq. apply Hz. rewrite Heq.
      apply list_elem_of_In, in_map, list_elem_of_In, Hu. }
    apply elem_of_cons in Hx as [->|Hx]; apply elem_of_cons in Hy as [->|Hy];
      [done| | |by apply IH].
    + by destruct (Hfresh y Hy).
    + by destruct (Hfresh x Hx).
Qed.

Lemma stock_loop_app stores pre post inStockStores w :
  stock_loop stores (pre ++ post) inStockStores w
  = (acc <- stock_loop stores pre inStockStores ;; stock_loop stores post acc) w.
Proof.
  revert inStockStores w. induction pre as [|info pre IH]; intros acc w.
  - done.
  - cbn [app stock_loop]. unfold bind.
    destruct (stock_body stores acc info w) as [[acc'| | |] w1]; done.
Qed.

(** The identifier as it is written, whatever its type. *)
Definition written_id (store : Store) : string := ToString (store_id store).

(** C10: stores are matched to stock entries with [===].  In a directory
    whose identifiers are unique as written, an entry whose [storeId] is
    written like the identifier of a cached store but has another type (the
    string "123" for the number 123) matches no store: the entry adds no
    line to the report and no store to the stores in stock, as if it were
    not in the response. *)
Theorem stock_entry_of_other_type_is_dropped
    stores store stockInfo pre post inStockStores w :
  NoDup (map written_id stores) ->
  store ∈ stores ->
  written_id store = ToString (storeId stockInfo) ->
  type_of (store_id store) <> type_of (storeId stockInfo) ->
  find (fun s => strict_equals (store_id s) (storeId stockInfo)) stores = None
  /\ stock_body stores inStockStores stockInfo w = (Returns inStockStores, w)
  /\ stock_loop stores (pre ++ stockInfo :: post) inStockStores w
     = stock_loop stores (pre ++ post) inStockStores w.
Proof.
  intros Hunique Hin Hwritten Htype.
  assert (find (fun s => strict_equals (store_id s) (storeId stockInfo)) stores
          = None) as Hfind.
  { apply find_none_iff. intros other Hother.
    destruct (strict_equals (store_id other) (storeId stockInfo)) eqn:Heq;
      [|done].
    apply strict_equals_eq in Heq.
    assert (other = store) as ->.
    { apply (NoDup_map_inj written_id stores); try done.
      unfold written_id. by rewrite Heq. }
    by rewrite Heq in Htype. }
  assert (forall acc w0, stock_body stores acc stockInfo w0 = (Returns acc, w0))
    as Hbody.
  { intros acc w0. unfold stock_body. by rewrite Hfind. }
  split; [done|]. split; [done|].
  rewrite !stock_loop_app. unfold bind.
  destruct (stock_loop stores pre inStockStores w) as [[acc| | |] w1]; try done.
  cbn [stock_loop]. unfold bind. by rewrite Hbody.
Qed.

Definition store_123 : Store :=
  {| store_id := VNum 123;
     store_address := "Cesta 1, 1000 Ljubljana";
     store_postalCode := VStr "1000";
     store_latitude := VNum 46;
     store_longitude := VNum 14;
     store_services := [] |}.

Lemma stock_entry_of_other_type_is_dropped_witness :
  stock_loop [store_123]
    [ {| storeId := VStr "123";
         storeAvailabilityIndicator := VStr "AVAILABLE" |} ]
    [] world_directory_down
  = (Returns [], world_directory_down).
Proof.
  apply (stock_entry_of_other_type_is_dropped
           [store_123] store_123
           {| storeId := VStr "123";
              storeAvailabilityIndicator := VStr "AVAILABLE" |}
           [] [] [] world_directory_down).
  - vm_compute. apply NoDup_singleton.
  - by left.
  - by vm_compute.
  - by vm_compute.
Defined.

(** ** The browser of fetchProductVariants *)

(** When the call returns, every browser it launched is closed. *)
Lemma fetchProductVariants_returns_closed productUrl w r w' :
  fetchProductVariants productUrl w = (Returns r, w') ->
  browsers w' = browsers w.
Proof.
  unfold fetchProductVariants.
  destruct (match_product_id productUrl) as [productId|].
  2:{ intros H. by inversion H. }
  unfold bind, puppeteer_launch, page_goto, browser_close, ret. simpl.
  destruct (web w productUrl) as [message|[|data]]; simpl; try done.
  destruct (data _) as [erp|]; [destruct (erp_variants erp)|];
    intros H; by inversion H.
Qed.

Lemma fetchProductVariants_product productUrl w result w' :
  fetchProductVariants productUrl w = (Returns (Some result), w') ->
  match_product_id productUrl = Some (result_productId result).
Proof.
  unfold fetchProductVariants.
  destruct (match_product_id productUrl) as [productId|]; [|done].
  unfold bind, puppeteer_launch, page_goto, browser_close, ret. simpl.
  destruct (web w productUrl) as [message|[|data]]; simpl; try done.
  destruct (data _) as [erp|]; [destruct (erp_variants erp)|];
    intros H; by inversion H.
Qed.

(** C3 (the code departs from the claim): [browser.close()] at line 150 is
    reached only when navigation and both evaluations succeed.  When
    [page.goto] rejects, or the page has no injected state so that the
    evaluation at line 139 rejects, the call ends with that error and the
    browser launched at line 135 is left open. *)
Theorem fetchProductVariants_error_leaves_browser productUrl productId w :
  match_product_id productUrl = Some productId ->
  (exists message, web w productUrl = NavigationFails message)
  \/ web w productUrl = Loaded PageWithoutState ->
  exists e,
    fetchProductVariants productUrl w = (Throws e, set_browsers S w)
    /\ browsers (set_browsers S w) = S (browsers w).
Proof.
  intros Hid Hweb. unfold fetchProductVariants. rewrite Hid.
  unfold bind, puppeteer_launch, page_goto. simpl.
  destruct Hweb as [[message ->]| ->]; simpl; eexists; done.
Qed.

Definition product_url : string :=
  "https://www.lidl.si/p/parkside-vrtalnik/p100372001".

(** A world with a cache of three stores in which the product page cannot
    be reached. *)
Definition world_page_unreachable : World :=
  {| env := {| MAPS_HOST := Some "https://maps.example/stores";
               MAPS_API_KEY := Some "key";
               LIDL_STOCK_API := Some "https://stock.example/" |};
     network := fun _ => FetchFails "fetch failed";
     web := fun _ => NavigationFails "net::ERR_NAME_NOT_RESOLVED";
     stdin := [];
     console := [];
     requests := [];
     cache := Some [store_at "A" "1010"; store_at "B" "1020";
                    store_at "C" "2010"];
     browsers := 0 |}.

Lemma fetchProductVariants_error_leaves_browser_witness :
  exists e,
    fetchProductVariants product_url world_page_unreachable
    = (Throws e, set_browsers S world_page_unreachable)
    /\ browsers (set_browsers S world_page_unreachable) = 1%nat.
Proof.
  apply (fetchProductVariants_error_leaves_browser
           product_url "100372001" world_page_unreachable).
  - by vm_compute.
  - left. by eexists.
Defined.

(** ** The variant of a product without variants *)

Definition prompted (query : string) (w : World) : World :=
  set_console (fun c => c ++ [Prompt query]) w.

(** C6: when the product of the URL is resolved with a title and an empty
    list of variants, the flow asks for no choice and goes on with one
    variant, made from the product: its identifier, the one the stock query
    is made with, is the product identifier found in the URL. *)
Theorem product_without_variants productUrl rest w result w1 :
  stdin w = productUrl :: rest ->
  fetchProductVariants productUrl
    (set_stdin rest (prompted "🔗 Enter Lidl product URL: " w))
  = (Returns (Some result), w1) ->
  truthy (result_fullTitle result) = true ->
  result_variants result = [] ->
  let w2 :=
    logged (LF +:+ "🔍 Searching for product: "
            +:+ ToString (result_fullTitle result)) w1 in
  match_product_id productUrl = Some (result_productId result)
  /\ choose_variant result w2 = (Returns (Some (synthetic_variant result)), w2)
  /\ select_product w = (Returns (Some (synthetic_variant result)), w2)
  /\ variant_id (synthetic_variant result) = VStr (result_productId result)
  /\ productSearchFlow w
     = (stores <- candidate_stores ;;
        match stores with
        | None => ret tt
        | Some stores =>
            findInStockStores (VStr (result_productId result)) stores
        end) w2.
Proof.
  intros Hin Hfetch Htitle Hnone w2.
  assert (choose_variant result w2
          = (Returns (Some (synthetic_variant result)), w2)) as Hchoose.
  { unfold choose_variant. by rewrite Hnone. }
  assert (select_product w = (Returns (Some (synthetic_variant result)), w2))
    as Hselect.
  { unfold select_product. unfold bind at 1. unfold askQuestion.
    cbn [stdin set_console]. rewrite Hin. fold (prompted "🔗 Enter Lidl product URL: " w).
    unfold bind at 1. rewrite Hfetch. rewrite Htitle. cbn [negb].
    unfold bind at 1. unfold console_log at 1. apply Hchoose. }
  assert (variant_id (synthetic_variant result)
          = VStr (result_productId result)) as Hid.
  { unfold variant_id, synthetic_variant, or_else. simpl.
    by destruct (String.eqb (result_productId result) ""). }
  split; [by eapply fetchProductVariants_product|].
  split; [done|]. split; [done|]. split; [done|].
  unfold productSearchFlow. unfold bind at 1. rewrite Hselect.
  by rewrite Hid.
Qed.

(** A world in which the page of the product has a title and no variants,
    and the stock service answers for the three cached stores. *)
Definition world_no_variants : World :=
  {| env := {| MAPS_HOST := Some "https://maps.example/stores";
               MAPS_API_KEY := Some "key";
               LIDL_STOCK_API := Some "https://stock.example/" |};
     network := fun _ =>
       FetchResponds
         {| ok := true; status := 200; statusText := "OK";
            body := BodyStock
              [ {| storeId := VStr "A";
                   storeAvailabilityIndicator := VStr "AVAILABLE" |};
                {| storeId := VStr "B";
                   storeAvailabilityIndicator := VStr "LOW_STOCK" |};
                {| storeId := VStr "Z";
                   storeAvailabilityIndicator := VStr "AVAILABLE" |} ] |};
     web := fun _ =>
       Loaded (PageWithState (fun key =>
         if String.eqb key "&erp100372001"
         then Some {| erp_variants := None;
                      erp_fullTitle := VStr "PARKSIDE vrtalnik" |}
         else None));
     stdin := [product_url; ""; "3"];
     console := [];
     requests := [];
     cache := Some [store_at "A" "1010"; store_at "B" "1020";
                    store_at "C" "2010"];
     browsers := 0 |}.

Lemma product_without_variants_witness :
  fst (select_product world_no_variants)
  = Returns (Some {| variant_fullTitle := VStr "PARKSIDE vrtalnik";
                     variant_productTitle := VUndefined;
                     variant_erpNumber := VStr "100372001";
                     variant_articleId := VStr "100372001" |}).
Proof.
  pose proof (product_without_variants
                product_url [""; "3"] world_no_variants
                {| result_productId := "100372001";
                   result_variants := [];
                   result_fullTitle := VStr "PARKSIDE vrtalnik" |}
                _ eq_refl ltac:(by vm_compute) eq_refl eq_refl) as H.
  destruct H as (_ & _ & H & _). by rewrite H.
Defined.

(** ** The store list of the flow *)

Lemma is_postcode_truthy (s : string) :
  is_postcode s = true -> truthy (VStr s) = true.
Proof. by destruct s. Qed.

Lemma postcode_while_valid answers (s : string) w :
  is_postcode s = true -> postcode_while answers s w = (Returns s, w).
Proof.
  intros H. destruct answers; simpl; by rewrite H, andb_false_r.
Qed.

Lemma postcode_while_empty answers w :
  postcode_while answers "" w = (Returns "", w).
Proof. by destruct answers. Qed.

Definition null_filter : exn :=
  JsError "TypeError" "Cannot read properties of null (reading 'filter')".

(** C1 (the code departs from the claim): the flow filters the stores at
    line 194, before the test of line 201 that refreshes an absent cache.
    With no cache file and a postal code of four digits as the answer, the
    filter is applied to [null]: the flow ends with a TypeError, no request
    for the directory is made and no cache is written. *)
Theorem candidate_stores_filters_before_refresh w first rest :
  cache w = None ->
  stdin w = first :: rest ->
  is_postcode first = true ->
  candidate_stores w
  = (Throws null_filter, set_stdin rest (prompted postcode_query w))
  /\ requests (set_stdin rest (prompted postcode_query w)) = requests w
  /\ cache (set_stdin rest (prompted postcode_query w)) = None.
Proof.
  intros Hcache Hin Hcode. split; [|by split].
  unfold candidate_stores, loadCachedStores. unfold bind at 1.
  rewrite Hcache. unfold bind at 1, askQuestion. cbn [stdin set_console].
  rewrite Hin. fold (prompted postcode_query w). unfold bind at 1.
  rewrite (postcode_while_valid _ _ _ Hcode).
  by rewrite (is_postcode_truthy _ Hcode).
Qed.

Lemma postcode_while_frame answers (s : string) w r w' :
  postcode_while answers s w = (r, w') ->
  cache w' = cache w /\ requests w' = requests w.
Proof.
  revert s w. induction answers as [|a answers IH]; intros s w;
    cbn [postcode_while];
    (destruct (truthy (VStr s) && negb (is_postcode s));
     [|intros H; by inversion H]);
    unfold bind, console_log, askQuestion; cbn [stdin set_console];
    destruct (stdin w) as [|next rest]; try (intros H; by inversion H).
  intros H. by destruct (IH _ _ H).
Qed.

(** The same holds when the postal code is given after answers that were
    turned down: whenever the loop of lines 188-191 ends with a postal code,
    the filter meets [null]. *)
Lemma candidate_stores_null_filter w first rest (code : string) w1 :
  cache w = None ->
  stdin w = first :: rest ->
  postcode_while rest first (set_stdin rest (prompted postcode_query w))
  = (Returns code, w1) ->
  code <> "" ->
  candidate_stores w = (Throws null_filter, w1)
  /\ requests w1 = requests w /\ cache w1 = None.
Proof.
  intros Hcache Hin Hloop Hcode.
  destruct (postcode_while_frame _ _ _ _ _ Hloop) as [Hc Hr].
  split; [|split; [done|by rewrite Hc]].
  unfold candidate_stores, loadCachedStores. unfold bind at 1.
  rewrite Hcache. unfold bind at 1, askQuestion. cbn [stdin set_console].
  rewrite Hin. fold (prompted postcode_query w). unfold bind at 1.
  cbn [stdin set_stdin]. rewrite Hloop.
  apply String.eqb_neq in Hcode. cbn [truthy]. by rewrite Hcode.
Qed.

(** A world without a cache file; the user asks for the stock of a product
    without variants around the postal code 1000. *)
Definition world_no_cache : World :=
  {| env := env world_no_variants;
     network := fun _ =>
       FetchResponds
         {| ok := true; status := 200; statusText := "OK";
            body := BodyDirectory [location_constructor] |};
     web := web world_no_variants;
     stdin := ["1"; product_url; "1000"; "3"];
     console := [];
     requests := [];
     cache := None;
     browsers := 0 |}.

Lemma candidate_stores_filters_before_refresh_witness :
  candidate_stores (set_stdin ["1000"; "3"] world_no_cache)
  = (Throws null_filter,
     set_stdin ["3"]
       (prompted postcode_query (set_stdin ["1000"; "3"] world_no_cache))).
Proof.
  by apply (candidate_stores_filters_before_refresh
              (set_stdin ["1000"; "3"] world_no_cache) "1000" ["3"]).
Defined.

(** The whole run on that world: the error leaves the flow and the menu. *)
Lemma script_without_cache_faults :
  fst (script 3 world_no_cache) = Throws null_filter
  /\ requests (snd (script 3 world_no_cache)) = []
  /\ cache (snd (script 3 world_no_cache)) = None
  /\ stdin (snd (script 3 world_no_cache)) = ["3"].
Proof. by vm_compute. Qed.

(** ** A stock query that is refused *)

Definition stock_url (e : Env) (productId : value) (stores : list Store)
  : string :=
  env_text (LIDL_STOCK_API e) +:+ ToString productId +:+ "?storeids="
  +:+ Array_join (map store_id stores) ",".

Definition stock_failure : exn :=
  JsError "Error" "Failed to fetch product availability".

Definition checking : string := LF +:+ "🔍 Checking stock across stores...".

(** The error of line 89 is thrown after the first line of the report; no
    other line of the report is printed. *)
Lemma findInStockStores_refused productId stores w r :
  network w (stock_url (env w) productId stores) = FetchResponds r ->
  ok r = false ->
  findInStockStores productId stores w
  = (Throws stock_failure,
     set_requests (fun l => l ++ [stock_url (env w) productId stores])
       (logged checking w)).
Proof.
  intros Hnet Hok.
  unfold findInStockStores, fetchProductAvailability, bind, console_log, fetch.
  fold (logged checking w). cbn [env network logged set_console].
  fold (stock_url (env w) productId stores).
  by rewrite Hnet, Hok.
Qed.

(** An error that ends a round of the menu ends [mainMenu]: line 257 is
    not reached and the menu is not shown again. *)
Lemma mainMenu_round_throws rounds w e w' :
  mainMenu_round w = (Throws e, w') ->
  mainMenu (S rounds) w = (Throws e, w').
Proof. intros H. cbn [mainMenu]. unfold bind. by rewrite H. Qed.

(** What the claim C2 says of a round of the menu: it returns to
    [mainMenu], which shows the menu again. *)
Definition round_returns (w : World) : Prop :=
  exists w', mainMenu_round w = (Returns tt, w').

(** C2, as amended: when the stock query of a round of the menu receives a
    status that is no success, the error thrown at line 89 is caught
    nowhere.  It ends [findInStockStores], [productSearchFlow] and
    [mainMenu]: nothing more is printed or read, and the menu is not shown
    again. *)
Theorem stock_refusal_ends_mainMenu
    rounds w w0 selected w1 stores w2 r :
  show_menu w = (Returns "1", w0) ->
  select_product w0 = (Returns (Some selected), w1) ->
  candidate_stores w1 = (Returns (Some stores), w2) ->
  network w2 (stock_url (env w2) (variant_id selected) stores)
  = FetchResponds r ->
  ok r = false ->
  let w3 :=
    set_requests
      (fun l => l ++ [stock_url (env w2) (variant_id selected) stores])
      (logged checking w2) in
  findInStockStores (variant_id selected) stores w2 = (Throws stock_failure, w3)
  /\ productSearchFlow w0 = (Throws stock_failure, w3)
  /\ mainMenu_round w = (Throws stock_failure, w3)
  /\ mainMenu (S rounds) w = (Throws stock_failure, w3)
  /\ ~ round_returns w
  /\ console w3 = console w2 ++ [Log checking]
  /\ stdin w3 = stdin w2.
Proof.
  intros Hmenu Hselect Hstores Hnet Hok w3.
  pose proof (findInStockStores_refused _ _ _ _ Hnet Hok) as Hquery.
  fold w3 in Hquery.
  assert (productSearchFlow w0 = (Throws stock_failure, w3)) as Hflow.
  { unfold productSearchFlow. unfold bind at 1. rewrite Hselect.
    unfold bind at 1. by rewrite Hstores. }
  assert (mainMenu_round w = (Throws stock_failure, w3)) as Hround.
  { unfold mainMenu_round. unfold bind at 1. by rewrite Hmenu. }
  repeat split; try done.
  - by apply mainMenu_round_throws.
  - intros [w' H]. by rewrite Hround in H.
Qed.

(** A world in which the stock service refuses every query. *)
Definition world_stock_refused : World :=
  {| env := env world_no_variants;
     network := fun _ =>
       FetchResponds {| ok := false; status := 500;
                        statusText := "Internal Server Error";
                        body := BodyInvalid |};
     web := web world_no_variants;
     stdin := ["1"; product_url; ""; "3"];
     console := [];
     requests := [];
     cache := cache world_no_variants;
     browsers := 0 |}.

Lemma stock_refusal_ends_mainMenu_witness :
  fst (mainMenu 3 world_stock_refused) = Throws stock_failure
  /\ stdin (snd (mainMenu 3 world_stock_refused)) = ["3"].
Proof.
  pose proof (stock_refusal_ends_mainMenu
                2 world_stock_refused _ _ _ _ _ _
                ltac:(by vm_compute) ltac:(by vm_compute)
                ltac:(by vm_compute) ltac:(by vm_compute) eq_refl) as H.
  destruct H as (_ & _ & _ & H & _). rewrite H. by vm_compute.
Defined.

(** C2, as it is stated, fails: in this run the stock query is refused with
    the status 500, and the round of the menu does not return; the error
    leaves [mainMenu] and the script with the answer 3 still unread. *)
Lemma stock_refusal_does_not_return :
  network world_stock_refused
    "https://stock.example/100372001?storeids=A,B,C"
  = FetchResponds {| ok := false; status := 500;
                     statusText := "Internal Server Error";
                     body := BodyInvalid |}
  /\ requests (snd (mainMenu_round world_stock_refused))
     = ["https://stock.example/100372001?storeids=A,B,C"]
  /\ fst (mainMenu_round world_stock_refused) = Throws stock_failure
  /\ ~ round_returns world_stock_refused
  /\ fst (script 3 world_stock_refused) = Throws stock_failure
  /\ stdin (snd (script 3 world_stock_refused)) = ["3"].
Proof.
  split; [done|]. split; [by vm_compute|]. split; [by vm_compute|].
  split; [|by vm_compute].
  intros [w' H]. apply (f_equal fst) in H. vm_compute in H. done.
Qed.
